(** * SpaceX launch records dashboard: the loader and the two chart queries

    A shallow embedding of [spacex-dash-app.py].  The script loads a table of
    launch records into a pandas data frame (falling back on a built-in table
    when the file is not there) and registers two callbacks,
    [get_pie_chart] and [get_scatter_chart], that filter and aggregate that
    table.  The pandas operations the script uses are modelled on lists of
    rows: boolean-mask indexing, the comparison of a numeric column with a
    scalar, [groupby(..).size()], [value_counts()], [unique()], [max()],
    [min()] and [map].  A chart is modelled by the table handed to plotly
    together with its title.  Every cell of a row holds a value: a table
    with missing cells is outside the model. *)

From Stdlib Require Import QArith Qcanon.
From stdpp Require Import base list list_numbers sorting strings numbers gmap.

#[local] Set Warnings "-clear-no-such-hyp".

Open Scope string_scope.
Open Scope Z_scope.
Open Scope nat_scope.

(** ** Data model *)

(** *** Numbers

    A payload mass and a bound of a payload range is a number as Python and
    numpy have it: an integer ([int], [int64]) or a float ([float],
    [float64]).  A float is given by the rational it stands for; missing
    values and infinities are no payloads and are left out, and so are
    integers too large for [float64]. *)
Inductive number : Type :=
  | Int (z : Z)
  | Float (x : Qc).

Global Instance number_eq_dec : EqDecision number.
Proof. solve_decision. Defined.

Definition is_float (n : number) : bool :=
  match n with Int _ => false | Float _ => true end.

(** The rational a number stands for. *)
Definition value (n : number) : Qc :=
  match n with Int z => Qc_of_Z z | Float x => x end.

(** The integer nearest to [z / u], the even one of the two when [z / u]
    lies halfway between them. *)
Definition round_half_even (z u : Z) : Z :=
  let q := (z / u)%Z in
  let r := (z mod u)%Z in
  if decide (2 * r < u)%Z then q
  else if decide (u < 2 * r)%Z then (q + 1)%Z
  else if Z.even q then q else (q + 1)%Z.

(** The gap between the float64 values around a non-negative integer: 1 up
    to 53 bits, then doubling with every further bit. *)
Definition ulp (a : Z) : Z := (2 ^ Z.max 0 (Z.log2 a - 52))%Z.

Definition round53_abs (a : Z) : Z := (ulp a * round_half_even a (ulp a))%Z.

(** The conversion of an [int64] to [float64]: the nearest value with a
    significand of 53 bits, ties to even. *)
Definition round53 (z : Z) : Z := (Z.sgn z * round53_abs (Z.abs z))%Z.

Definition float64_of_int (z : Z) : Qc := Qc_of_Z (round53 z).

(** A number converted to [float64]. *)
Definition as_float (n : number) : Qc :=
  match n with Int z => float64_of_int z | Float x => x end.

(** *** Rows *)

(** One row of the table.  The fields are the four columns the script reads:
    ['Launch Site'], ['Payload Mass (kg)'], ['class'] (stored as 1/0) and
    ['Booster Version Category']. *)
Record row : Type := Row {
  Launch_Site : string;
  Payload_Mass : number;
  class : Z;
  Booster_Version_Category : string
}.

Definition DataFrame : Type := list row.

Global Instance row_eq_dec : EqDecision row.
Proof. solve_decision. Defined.

(** A payload mass given as a whole number of kilograms. *)
Definition kg (n : Z) : number := Int n.

(** [pd.DataFrame({...})] from four columns of the same length. *)
Fixpoint from_columns (sites : list string) (payloads : list Z)
    (classes : list Z) (boosters : list string) : DataFrame :=
  match sites, payloads, classes, boosters with
  | s :: sites', p :: payloads', c :: classes', b :: boosters' =>
      Row s (kg p) c b :: from_columns sites' payloads' classes' boosters'
  | _, _, _, _ => []
  end.

(** Every record has a non-negative payload mass and an outcome stored as
    1 (success) or 0 (failure). *)
Definition well_formed (df : DataFrame) : Prop :=
  Forall (λ r, (0 ≤ value (Payload_Mass r))%Qc
               ∧ (class r = 1%Z ∨ class r = 0%Z)) df.

(** ** Exceptions and results *)

Inductive exn : Type :=
  | FileNotFoundError
  | PermissionError
  | ParserError
  | EmptyDataError
  | UnicodeDecodeError
  | ValueError.

Inductive result (A : Type) : Type :=
  | Ok (a : A)
  | Raise (e : exn).
Arguments Ok {A} a.
Arguments Raise {A} e.

Global Instance exn_eq_dec : EqDecision exn.
Proof. solve_decision. Defined.

(** ** The pandas operations used by the script *)

Section pandas.
Context {A : Type}.

(** [df[mask]]: the rows at which the boolean mask holds, in order. *)
Fixpoint getitem (df : list A) (mask : list bool) : list A :=
  match df, mask with
  | r :: df', b :: mask' =>
      if b then r :: getitem df' mask' else getitem df' mask'
  | _, _ => []
  end.

(** [mask1 & mask2], element by element. *)
Definition mask_and (m1 m2 : list bool) : list bool := zip_with andb m1 m2.

Context `{EqDecision A}.

(** [column == v], element by element. *)
Definition col_eq (col : list A) (v : A) : list bool :=
  (λ x, bool_decide (x = v)) <$> col.

(** [column.unique()]: the distinct values in order of first appearance. *)
Fixpoint unique (col : list A) : list A :=
  match col with
  | [] => []
  | x :: col' => x :: filter (λ y, y ≠ x) (unique col')
  end.

(** The number of rows of a column that hold a given value. *)
Definition occurrences (k : A) (col : list A) : nat :=
  length (filter (λ x, x = k) col).

(** The size of the group of each of the given keys in a column. *)
Definition group_sizes (keys col : list A) : list (A * nat) :=
  (λ k, (k, occurrences k col)) <$> keys.

(** The order [value_counts] sorts by: the larger count first. *)
Definition count_ge (kn1 kn2 : A * nat) : Prop := kn2.2 ≤ kn1.2.

Global Instance count_ge_dec : RelDecision count_ge.
Proof. intros kn1 kn2. unfold count_ge. apply _. Defined.

(** One step of the sort by count: an entry goes behind the entries with a
    larger count and before the others. *)
Fixpoint insert_by_count (kn : A * nat) (l : list (A * nat))
    : list (A * nat) :=
  match l with
  | [] => [kn]
  | kn' :: l' =>
      if decide (kn.2 < kn'.2) then kn' :: insert_by_count kn l'
      else kn :: l
  end.

(** [sort_values(ascending=False)] as [value_counts] uses it: the larger
    count first, entries with the same count in the order they had. *)
Definition sort_by_count (l : list (A * nat)) : list (A * nat) :=
  foldr insert_by_count [] l.

(** [column.value_counts()]: each distinct value with its number of
    occurrences, the largest count first, values with the same count in
    order of first appearance. *)
Definition value_counts (col : list A) : list (A * nat) :=
  sort_by_count (group_sizes (unique col) col).
End pandas.

(** The dtype of a numeric column: [float64] as soon as it holds a float,
    [int64] otherwise. *)
Definition float_dtype (col : list number) : bool := existsb is_float col.

(** Whether numpy compares a column with a scalar in [float64]: it does
    unless the column is [int64] and the scalar an integer, which it
    compares as integers. *)
Definition compares_as_float (col : list number) (bound : number) : bool :=
  float_dtype col || is_float bound.

(** An operand of such a comparison: converted to [float64], or as it is. *)
Definition operand (in_float64 : bool) (n : number) : Qc :=
  if in_float64 then as_float n else value n.

(** [column >= low] and [column <= high] on a numeric column. *)
Definition col_ge (col : list number) (low : number) : list bool :=
  let f := compares_as_float col low in
  (λ x, bool_decide (operand f low ≤ operand f x)%Qc) <$> col.
Definition col_le (col : list number) (high : number) : list bool :=
  let f := compares_as_float col high in
  (λ x, bool_decide (operand f x ≤ operand f high)%Qc) <$> col.

(** The cells of a numeric column as pandas holds them: all in [float64]
    when the column has that dtype. *)
Definition stored (col : list number) : list number :=
  if float_dtype col then (λ n, Float (as_float n)) <$> col else col.

(** The larger and the smaller of two numbers of one dtype. *)
Definition num_max (x y : number) : number :=
  if decide (value x ≤ value y)%Qc then y else x.
Definition num_min (x y : number) : number :=
  if decide (value x ≤ value y)%Qc then x else y.

(** [column.max()] and [column.min()] on a numeric column; [None] stands
    for the NaN that pandas gives on a column without rows. *)
Definition col_max (col : list number) : option number :=
  match stored col with
  | [] => None
  | x :: col' => Some (foldl num_max x col')
  end.
Definition col_min (col : list number) : option number :=
  match stored col with
  | [] => None
  | x :: col' => Some (foldl num_min x col')
  end.

(** [groupby(column).size()]: the groups in increasing order of their key,
    each with its number of rows. *)
Definition groupby_size (col : list string) : list (string * nat) :=
  group_sizes (merge_sort String.le (unique col)) col.

(** ** Charts *)

(** A cell of a column of names: a string, or NaN where [map] found no
    entry. *)
Inductive label : Type :=
  | Str (s : string)
  | NaN.

Global Instance label_eq_dec : EqDecision label.
Proof. solve_decision. Defined.

(** [px.pie(data, values=.., names=.., title=..)]: one slice per row. *)
Record pie_figure : Type := px_pie {
  pie_slices : list (label * nat);
  pie_title : string
}.

(** [px.scatter(data, .., title=..)]: one point per row. *)
Record scatter_figure : Type := px_scatter {
  scatter_points : DataFrame;
  scatter_title : string
}.

(** [.map({1: 'Success', 0: 'Failure'})] on one cell. *)
Definition outcome_map (c : Z) : label :=
  if decide (c = 1%Z) then Str "Success"
  else if decide (c = 0%Z) then Str "Failure"
  else NaN.

(** ** The loader *)

Definition csv_path : string := "spacex_launch_dash.csv".

Definition not_found_message : string :=
  "Error: spacex_launch_dash.csv not found. Please ensure the file is in the correct directory.".

(** The dummy data frame built when the file is not found. *)
Definition dummy_df : DataFrame :=
  from_columns
    ["CCAFS LC-40"; "VAFB SLC-4E"; "KSC LC-39A"; "CCAFS SLC-40"]
    [500; 600; 700; 800]%Z
    [0; 1; 1; 0]%Z
    ["v1.0"; "v1.1"; "FT"; "v1.0"].

(** The [try]/[except FileNotFoundError] block at the top of the script.
    [read_csv] stands for [pd.read_csv] on the file system the script runs
    on.  The result is what was printed together with either the value bound
    to [spacex_df] or the exception that leaves the block. *)
Definition load (read_csv : string → result DataFrame)
    : list string * result DataFrame :=
  match read_csv csv_path with
  | Ok df => ([], Ok df)
  | Raise FileNotFoundError => ([not_found_message], Ok dummy_df)
  | Raise e => ([], Raise e)
  end.

(** [spacex_df['Payload Mass (kg)'].max()] and [.min()], the values the
    payload slider starts from. *)
Definition max_payload (spacex_df : DataFrame) : option number :=
  col_max (Payload_Mass <$> spacex_df).
Definition min_payload (spacex_df : DataFrame) : option number :=
  col_min (Payload_Mass <$> spacex_df).

(** [spacex_df['Launch Site'].unique()]. *)
Definition launch_sites (spacex_df : DataFrame) : list string :=
  unique (Launch_Site <$> spacex_df).

(** The dropdown options: the 'ALL' entry, then one entry per site, each a
    label with its value. *)
Definition site_options (spacex_df : DataFrame) : list (string * string) :=
  ("All Sites", "ALL") :: ((λ site, (site, site)) <$> launch_sites spacex_df).

(** ** The two callbacks *)

Definition get_pie_chart (spacex_df : DataFrame) (entered_site : string)
    : pie_figure :=
  if decide (entered_site = "ALL") then
    let successful_df :=
      getitem spacex_df (col_eq (class <$> spacex_df) 1%Z) in
    let site_success_counts :=
      groupby_size (Launch_Site <$> successful_df) in
    px_pie ((λ sn : string * nat, (Str sn.1, sn.2)) <$> site_success_counts)
           "Total Successful Launches by Site"
  else
    let filtered_df :=
      getitem spacex_df (col_eq (Launch_Site <$> spacex_df) entered_site) in
    let site_outcome_counts := value_counts (class <$> filtered_df) in
    px_pie ((λ cn : Z * nat, (outcome_map cn.1, cn.2)) <$> site_outcome_counts)
           ("Launch Success vs Failure Rate for site " +:+ entered_site).

Definition get_scatter_chart (spacex_df : DataFrame) (entered_site : string)
    (payload_range : list number) : result scatter_figure :=
  match payload_range with
  | [low; high] =>
      let mask :=
        mask_and (col_ge (Payload_Mass <$> spacex_df) low)
                 (col_le (Payload_Mass <$> spacex_df) high) in
      let filtered_df := getitem spacex_df mask in
      if decide (entered_site = "ALL") then
        Ok (px_scatter filtered_df
              "Payload vs. Launch Outcome for All Sites (Colored by Booster Version)")
      else
        let site_filtered_df :=
          getitem filtered_df
                  (col_eq (Launch_Site <$> filtered_df) entered_site) in
        Ok (px_scatter site_filtered_df
              ("Payload vs. Launch Outcome for site " +:+ entered_site
               +:+ " (Colored by Booster Version)"))
  | _ => Raise ValueError
  end.

(** ** Reading a chart *)

(** The entry of a slice in the mapping a pie chart shows; a slice whose
    name is NaN has none. *)
Definition named (ln : label * nat) : option (string * nat) :=
  match ln.1 with Str s => Some (s, ln.2) | NaN => None end.

(** The mapping a pie chart shows: slice name to slice value. *)
Definition pie_mapping (fig : pie_figure) : gmap string nat :=
  list_to_map (omap named (pie_slices fig)).

(** The count a pie chart gives for a name, zero when it has no such
    slice. *)
Definition pie_count (fig : pie_figure) (name : string) : nat :=
  default 0 (pie_mapping fig !! name).

(** The records a scatter chart plots, when the callback returned one. *)
Definition scatter_records (res : result scatter_figure)
    : option DataFrame :=
  match res with
  | Ok fig => Some (scatter_points fig)
  | Raise _ => None
  end.

(** ** The vocabulary of the properties *)

Definition succeeded (r : row) : Prop := class r = 1%Z.
Definition failed (r : row) : Prop := class r = 0%Z.
Definition at_site (site : string) (r : row) : Prop := Launch_Site r = site.
Definition in_range (low high : number) (r : row) : Prop :=
  (value low ≤ value (Payload_Mass r))%Qc
  ∧ (value (Payload_Mass r) ≤ value high)%Qc.

Global Instance succeeded_dec r : Decision (succeeded r).
Proof. unfold succeeded. apply _. Defined.
Global Instance failed_dec r : Decision (failed r).
Proof. unfold failed. apply _. Defined.
Global Instance at_site_dec site r : Decision (at_site site r).
Proof. unfold at_site. apply _. Defined.
Global Instance in_range_dec low high r : Decision (in_range low high r).
Proof. unfold in_range. apply _. Defined.

(** The records a payload range and a site selection ask for: those with
    a payload from [low] to [high], of the selected site if there is one. *)
Definition selected (site : string) (low high : number) (r : row) : Prop :=
  in_range low high r ∧ (site = "ALL" ∨ at_site site r).

Global Instance selected_dec site low high r :
  Decision (selected site low high r).
Proof. unfold selected. apply _. Defined.

(** A record whose payload passes the two comparisons of the mask, made
    the way numpy makes them on the payload column of the data set. *)
Definition passes (df : DataFrame) (low high : number) (r : row) : Prop :=
  let col := Payload_Mass <$> df in
  (operand (compares_as_float col low) low
   ≤ operand (compares_as_float col low) (Payload_Mass r))%Qc
  ∧ (operand (compares_as_float col high) (Payload_Mass r)
     ≤ operand (compares_as_float col high) high)%Qc.

Global Instance passes_dec df low high r : Decision (passes df low high r).
Proof. unfold passes. cbv zeta. apply _. Defined.

(** The records the scatter callback keeps. *)
Definition kept (df : DataFrame) (site : string) (low high : number)
    (r : row) : Prop :=
  passes df low high r ∧ (site = "ALL" ∨ at_site site r).

Global Instance kept_dec df site low high r :
  Decision (kept df site low high r).
Proof. unfold kept. apply _. Defined.

(** Every record has an outcome stored as 1 or as 0. *)
Definition outcomes_recorded (df : DataFrame) : Prop :=
  Forall (λ r, succeeded r ∨ failed r) df.

(** A number whose conversion to [float64] does not change it. *)
Definition exact (n : number) : Prop := as_float n = value n.

(** The comparison of the payload column with a bound is made without
    rounding: as integers, or in [float64] with every operand exact. *)
Definition compared_exactly (df : DataFrame) (bound : number) : Prop :=
  compares_as_float (Payload_Mass <$> df) bound = true →
  exact bound ∧ ∀ r, r ∈ df → exact (Payload_Mass r).

(** A number that is an integer of at most 2^53 in size, or a float: its
    conversion to [float64] rounds nothing. *)
Definition within_float64 (n : number) : Prop :=
  match n with Int z => (Z.abs z ≤ 2 ^ 53)%Z | Float _ => True end.

(** Two bounds of one numeric type. *)
Definition same_type (n m : number) : Prop := is_float n = is_float m.

(** The records plotted for a site and a payload range. *)
Definition scatter_rows (df : DataFrame) (site : string) (low high : number)
    : DataFrame :=
  default [] (scatter_records (get_scatter_chart df site [low; high])).

(** The slices of the chart of one site, before they are sorted by count. *)
Definition outcome_slices (keys col : list Z) : list (label * nat) :=
  (λ cn : Z * nat, (outcome_map cn.1, cn.2)) <$> group_sizes keys col.

(** The data set of the scenario: four records. *)
Definition record1 : row := Row "CCAFS" (kg 500) 1 "v1.0".
Definition record2 : row := Row "VAFB" (kg 600) 0 "v1.1".
Definition record3 : row := Row "KSC" (kg 700) 1 "FT".
Definition record4 : row := Row "CCAFS" (kg 800) 0 "v1.0".

Definition scenario : DataFrame := [record1; record2; record3; record4].

(** Two payloads that an [int64] column holds apart and [float64] does
    not: 2^53 + 1 and 2^53. *)
Definition heavy1 : row := Row "KSC" (Int (2 ^ 53 + 1)) 1 "FT".
Definition heavy2 : row := Row "KSC" (Int (2 ^ 53)) 1 "FT".

(** Two records of a site that is itself called 'ALL', and a record whose
    class is neither 1 nor 0. *)
Definition site_called_ALL : DataFrame :=
  [Row "ALL" (kg 1) 1 "FT"; Row "ALL" (kg 2) 0 "FT"].
Definition class_two : row := Row "KSC" (kg 1) 2 "FT".

(** ** Boolean-mask indexing is filtering *)

Section getitem_facts.
Context {A : Type}.

Lemma getitem_decide (P : A → Prop) `{!∀ x, Decision (P x)} (df : list A) :
  getitem df ((λ r, bool_decide (P r)) <$> df) = filter P df.
Proof.
  induction df as [|r df IH]; [done|].
  cbn [fmap list_fmap getitem]. rewrite filter_cons.
  destruct (decide (P r)) as [HP|HP].
  - rewrite bool_decide_eq_true_2 by done. by f_equal.
  - by rewrite bool_decide_eq_false_2 by done.
Qed.

Lemma mask_and_decide (P Q : A → Prop)
    `{!∀ x, Decision (P x)} `{!∀ x, Decision (Q x)} (df : list A) :
  mask_and ((λ r, bool_decide (P r)) <$> df) ((λ r, bool_decide (Q r)) <$> df)
  = (λ r, bool_decide (P r ∧ Q r)) <$> df.
Proof.
  unfold mask_and. induction df as [|r df IH]; [done|].
  cbn [fmap list_fmap zip_with]. f_equal; [|done].
  destruct (decide (P r)), (decide (Q r));
    repeat first [rewrite bool_decide_eq_true_2 by tauto
                 |rewrite bool_decide_eq_false_2 by tauto]; done.
Qed.

Lemma getitem_col_eq {B : Type} `{EqDecision B} (f : A → B) (v : B)
    (df : list A) :
  getitem df (col_eq (f <$> df) v) = filter (λ r, f r = v) df.
Proof.
  unfold col_eq. rewrite <-list_fmap_compose. unfold compose.
  apply (getitem_decide (λ r, f r = v)).
Qed.

Lemma filter_ext_in (P Q : A → Prop)
    `{!∀ x, Decision (P x)} `{!∀ x, Decision (Q x)} (l : list A) :
  (∀ x, x ∈ l → P x ↔ Q x) → filter P l = filter Q l.
Proof.
  intros HPQ. induction l as [|x l IH]; [done|].
  rewrite !filter_cons, IH by (intros y Hy; apply HPQ; by right).
  pose proof (HPQ x ltac:(left)) as Hx.
  destruct (decide (P x)), (decide (Q x)); naive_solver.
Qed.

Lemma sublist_filter_impl (P Q : A → Prop)
    `{!∀ x, Decision (P x)} `{!∀ x, Decision (Q x)} (l : list A) :
  (∀ x, x ∈ l → P x → Q x) → filter P l `sublist_of` filter Q l.
Proof.
  intros HPQ.
  assert (filter P l = filter P (filter Q l)) as ->; [|apply sublist_filter].
  rewrite (list_filter_filter P Q). apply filter_ext_in. naive_solver.
Qed.

Lemma length_filter_impl (P Q : A → Prop)
    `{!∀ x, Decision (P x)} `{!∀ x, Decision (Q x)} (l : list A) :
  (∀ x, x ∈ l → P x → Q x) → length (filter P l) ≤ length (filter Q l).
Proof. intros HPQ. by apply sublist_length, sublist_filter_impl. Qed.

Lemma filter_none (P : A → Prop) `{!∀ x, Decision (P x)} (l : list A) :
  (∀ x, x ∈ l → ¬ P x) → filter P l = [].
Proof.
  intros Hno. induction l as [|x l IH]; [done|].
  rewrite filter_cons. destruct (decide (P x)) as [HP|HP].
  - destruct (Hno x); [left|done].
  - apply IH. intros y Hy. apply Hno. by right.
Qed.
End getitem_facts.

Lemma getitem_between (df : DataFrame) (low high : number) :
  getitem df (mask_and (col_ge (Payload_Mass <$> df) low)
                       (col_le (Payload_Mass <$> df) high))
  = filter (passes df low high) df.
Proof.
  unfold col_ge, col_le. cbv zeta.
  set (fl := compares_as_float (Payload_Mass <$> df) low).
  set (fh := compares_as_float (Payload_Mass <$> df) high).
  rewrite <-!list_fmap_compose. unfold compose.
  rewrite (mask_and_decide
             (λ r, (operand fl low ≤ operand fl (Payload_Mass r))%Qc)
             (λ r, (operand fh (Payload_Mass r) ≤ operand fh high)%Qc)).
  apply (getitem_decide
           (λ r, (operand fl low ≤ operand fl (Payload_Mass r))%Qc
                 ∧ (operand fh (Payload_Mass r) ≤ operand fh high)%Qc)).
Qed.

(** ** The conversion of integers to float64 *)

Lemma ulp_pos (a : Z) : (0 < ulp a)%Z.
Proof. unfold ulp. apply Z.pow_pos_nonneg; lia. Qed.

Lemma round_half_even_multiple (k u : Z) :
  (0 < u)%Z → round_half_even (k * u) u = k.
Proof.
  intros Hu. unfold round_half_even.
  rewrite Z.div_mul, Z.mod_mul by lia. rewrite decide_True by lia. done.
Qed.

Lemma round_half_even_mono (u a b : Z) :
  (0 < u)%Z → (a ≤ b)%Z → (round_half_even a u ≤ round_half_even b u)%Z.
Proof.
  intros Hu Hab. unfold round_half_even.
  pose proof (Z.div_mod a u ltac:(lia)) as Ha.
  pose proof (Z.div_mod b u ltac:(lia)) as Hb.
  pose proof (Z.mod_pos_bound a u Hu) as Hra.
  pose proof (Z.mod_pos_bound b u Hu) as Hrb.
  pose proof (Z.div_le_mono a b u Hu Hab) as Hq.
  destruct (decide (a / u = b / u)%Z) as [Heq|Hne].
  - rewrite Heq in *. assert (a mod u ≤ b mod u)%Z by lia.
    repeat case_decide; destruct (Z.even (b / u)); lia.
  - assert (a / u + 1 ≤ b / u)%Z by lia.
    repeat case_decide;
      destruct (Z.even (a / u)), (Z.even (b / u)); lia.
Qed.

Lemma ulp_divides (a n : Z) :
  (0 ≤ Z.log2 a ≤ n)%Z →
  (2 ^ n = 2 ^ (n - Z.max 0 (Z.log2 a - 52)) * ulp a)%Z.
Proof.
  intros Hn. unfold ulp. rewrite <-Z.pow_add_r by lia. f_equal. lia.
Qed.

(** Rounding stays within the binade of the integer. *)
Lemma round53_abs_bounds (a : Z) :
  (0 < a)%Z → (2 ^ Z.log2 a ≤ round53_abs a ≤ 2 ^ (Z.log2 a + 1))%Z.
Proof.
  intros Ha. pose proof (Z.log2_spec a Ha) as [Hlo Hhi].
  pose proof (Z.log2_nonneg a) as Hn. pose proof (ulp_pos a) as Hu.
  unfold round53_abs. split.
  - rewrite (ulp_divides a (Z.log2 a)) at 1 by lia.
    rewrite Z.mul_comm. apply Z.mul_le_mono_nonneg_l; [lia|].
    rewrite <-(round_half_even_multiple (2 ^ _) (ulp a) Hu) at 1.
    apply round_half_even_mono; [done|]. rewrite <-ulp_divides by lia. done.
  - rewrite (ulp_divides a (Z.log2 a + 1)) by lia.
    rewrite (Z.mul_comm _ (ulp a)). apply Z.mul_le_mono_nonneg_l; [lia|].
    rewrite <-(round_half_even_multiple (2 ^ _) (ulp a) Hu).
    apply round_half_even_mono; [done|]. rewrite <-ulp_divides by lia.
    replace (Z.succ (Z.log2 a)) with (Z.log2 a + 1)%Z in Hhi by lia. lia.
Qed.

Lemma round53_abs_nonneg (a : Z) : (0 ≤ a)%Z → (0 ≤ round53_abs a)%Z.
Proof.
  intros Ha. destruct (decide (a = 0%Z)) as [->|Hne]; [done|].
  pose proof (round53_abs_bounds a ltac:(lia)) as [Hlo _].
  pose proof (Z.pow_pos_nonneg 2 (Z.log2 a) ltac:(lia) (Z.log2_nonneg a)).
  lia.
Qed.

Lemma round53_abs_mono (a b : Z) :
  (0 ≤ a ≤ b)%Z → (round53_abs a ≤ round53_abs b)%Z.
Proof.
  intros [Ha Hab]. destruct (decide (a = 0%Z)) as [->|Hne].
  { change (round53_abs 0) with 0%Z. apply round53_abs_nonneg. lia. }
  pose proof (Z.log2_le_mono a b Hab) as Hlog.
  destruct (decide (Z.log2 a = Z.log2 b)) as [Heq|Hlt].
  - unfold round53_abs, ulp. rewrite Heq. fold (ulp b).
    apply Z.mul_le_mono_nonneg_l; [pose proof (ulp_pos b); lia|].
    apply round_half_even_mono; [apply ulp_pos|done].
  - pose proof (round53_abs_bounds a ltac:(lia)) as [_ Hhi].
    pose proof (round53_abs_bounds b ltac:(lia)) as [Hlo _].
    assert (2 ^ (Z.log2 a + 1) ≤ 2 ^ Z.log2 b)%Z.
    { apply Z.pow_le_mono_r; lia. }
    lia.
Qed.

Lemma round53_nonneg (z : Z) : (0 ≤ z)%Z → round53 z = round53_abs z.
Proof.
  intros Hz. unfold round53. destruct (decide (z = 0%Z)) as [->|Hne]; [done|].
  rewrite Z.sgn_pos, Z.abs_eq by lia. lia.
Qed.

Lemma round53_neg (z : Z) : (z < 0)%Z → round53 z = (- round53_abs (- z))%Z.
Proof.
  intros Hz. unfold round53. rewrite Z.sgn_neg, Z.abs_neq by lia. lia.
Qed.

(** The conversion keeps the order of the integers. *)
Lemma round53_mono (a b : Z) : (a ≤ b)%Z → (round53 a ≤ round53 b)%Z.
Proof.
  intros Hab. destruct (decide (0 ≤ a)%Z) as [Ha|Ha].
  - rewrite !round53_nonneg by lia. apply round53_abs_mono. lia.
  - rewrite (round53_neg a) by lia.
    pose proof (round53_abs_nonneg (- a) ltac:(lia)).
    destruct (decide (0 ≤ b)%Z) as [Hb|Hb].
    + rewrite round53_nonneg by lia.
      pose proof (round53_abs_nonneg b Hb). lia.
    + rewrite (round53_neg b) by lia.
      pose proof (round53_abs_mono (- b) (- a) ltac:(lia)). lia.
Qed.

Lemma round53_abs_exact (a : Z) : (0 ≤ a ≤ 2 ^ 53)%Z → round53_abs a = a.
Proof.
  intros [Ha Hhi]. destruct (decide (a = 2 ^ 53)%Z) as [->|Hne]; [done|].
  destruct (decide (a = 0%Z)) as [->|Hpos]; [done|].
  assert (Z.log2 a < 53)%Z as Hlog by (apply Z.log2_lt_pow2; lia).
  unfold round53_abs, ulp. rewrite Z.max_l by lia.
  change (2 ^ 0)%Z with 1%Z. rewrite <-(Z.mul_1_r a) at 1.
  rewrite round_half_even_multiple by lia. lia.
Qed.

(** Up to 2^53 in size every integer is a float64. *)
Lemma round53_exact (z : Z) : (Z.abs z ≤ 2 ^ 53)%Z → round53 z = z.
Proof.
  intros Hz. unfold round53. rewrite round53_abs_exact by lia.
  destruct (Z.abs_spec z), (Z.sgn_spec z); lia.
Qed.

(** ** Comparing numbers *)

Lemma exact_Float (x : Qc) : exact (Float x).
Proof. done. Qed.

Lemma exact_Int (z : Z) : (Z.abs z ≤ 2 ^ 53)%Z → exact (Int z).
Proof. intros Hz. unfold exact. cbn. unfold float64_of_int. by rewrite round53_exact. Qed.

Lemma operand_exact (f : bool) (n : number) :
  (f = true → exact n) → operand f n = value n.
Proof. destruct f; [|done]. intros Hn. by apply Hn. Qed.

(** Converting two numbers of one type keeps their order. *)
Lemma operand_mono (f : bool) (n m : number) :
  same_type n m → (value n ≤ value m)%Qc → (operand f n ≤ operand f m)%Qc.
Proof.
  destruct f; [|done]. destruct n as [a|x], m as [b|y]; try done.
  intros _ Hab. cbn in *. unfold float64_of_int.
  rewrite <-Z2Qc_inj_le in Hab. rewrite <-Z2Qc_inj_le. by apply round53_mono.
Qed.

Lemma compares_as_float_same_type (col : list number) (n m : number) :
  same_type n m → compares_as_float col n = compares_as_float col m.
Proof. unfold same_type, compares_as_float. by intros ->. Qed.

(** When the comparisons with both bounds are exact, what passes the mask
    is what lies in the range. *)
Lemma passes_exactly (df : DataFrame) (low high : number) (r : row) :
  compared_exactly df low → compared_exactly df high → r ∈ df →
  passes df low high r ↔ in_range low high r.
Proof.
  intros Hlow Hhigh Hr. unfold passes, in_range. cbv zeta.
  rewrite !operand_exact; [done|..]; intros Hf.
  - by apply Hhigh.
  - by apply (Hhigh Hf).
  - by apply (Hlow Hf).
  - by apply Hlow.
Qed.

Lemma float_dtype_false (col : list number) (n : number) :
  float_dtype col = false → n ∈ col → is_float n = false.
Proof.
  unfold float_dtype. intros Hcol Hn.
  destruct (is_float n) eqn:Hf; [|done].
  rewrite <-Hcol. symmetry. apply existsb_exists. exists n.
  split; [by apply list_elem_of_In|done].
Qed.

Lemma compared_exactly_ints (df : DataFrame) (z : Z) :
  (∀ r, r ∈ df → is_float (Payload_Mass r) = false) →
  compared_exactly df (Int z).
Proof.
  intros Hint Hf. unfold compares_as_float in Hf. cbn in Hf.
  rewrite orb_false_r in Hf. apply existsb_exists in Hf as (n & Hn & Hfl).
  apply list_elem_of_In, list_elem_of_fmap in Hn as (r & -> & Hr).
  by rewrite Hint in Hfl.
Qed.

Lemma compared_exactly_floats (df : DataFrame) (x : Qc) :
  (∀ r, r ∈ df → is_float (Payload_Mass r) = true) →
  compared_exactly df (Float x).
Proof.
  intros Hfloat _. split; [done|]. intros r Hr.
  specialize (Hfloat r Hr). by destruct (Payload_Mass r).
Qed.

Lemma compared_exactly_within (df : DataFrame) (bound : number) :
  within_float64 bound →
  (∀ r, r ∈ df → within_float64 (Payload_Mass r)) →
  compared_exactly df bound.
Proof.
  assert (∀ n, within_float64 n → exact n) as Hexact.
  { intros [z|x]; [apply exact_Int|done]. }
  intros Hb Hdf _. split; [by apply Hexact|].
  intros r Hr. by apply Hexact, Hdf.
Qed.

(** ** Distinct values and group sizes *)

Lemma sum_list_cons (n : nat) (l : list nat) :
  sum_list (n :: l) = n + sum_list l.
Proof. done. Qed.

Section group_facts.
Context {A : Type} `{EqDecision A}.
Implicit Types (col keys : list A) (k x : A).

Lemma elem_of_unique col x : x ∈ unique col ↔ x ∈ col.
Proof.
  induction col as [|y col IH]; [done|].
  cbn [unique]. rewrite !elem_of_cons, list_elem_of_filter, IH.
  destruct (decide (x = y)); naive_solver.
Qed.

Lemma NoDup_unique col : NoDup (unique col).
Proof.
  induction col as [|y col IH]; [constructor|].
  cbn [unique]. constructor.
  - rewrite list_elem_of_filter. naive_solver.
  - by apply NoDup_filter.
Qed.

Lemma occurrences_cons k x col :
  occurrences k (x :: col)
  = (if decide (x = k) then 1 else 0) + occurrences k col.
Proof.
  unfold occurrences. rewrite filter_cons. by destruct (decide (x = k)).
Qed.

Lemma occurrences_pos k col : k ∈ col → 0 < occurrences k col.
Proof.
  induction col as [|x col IH]; [by intros ?%elem_of_nil|].
  rewrite occurrences_cons. intros [->|Hin]%elem_of_cons.
  - rewrite decide_True by done. lia.
  - specialize (IH Hin). lia.
Qed.

Lemma occurrences_zero k col : k ∉ col → occurrences k col = 0.
Proof.
  intros Hk. unfold occurrences. rewrite filter_none; [done|].
  intros x Hx ->. done.
Qed.

Lemma fst_group_sizes keys col : (group_sizes keys col).*1 = keys.
Proof.
  unfold group_sizes. rewrite <-list_fmap_compose.
  induction keys as [|k keys IH]; [done|]. cbn. by f_equal.
Qed.

Lemma snd_group_sizes keys col :
  (group_sizes keys col).*2 = (λ k, occurrences k col) <$> keys.
Proof. unfold group_sizes. by rewrite <-list_fmap_compose. Qed.

Lemma elem_of_group_sizes keys col k n :
  (k, n) ∈ group_sizes keys col ↔ k ∈ keys ∧ n = occurrences k col.
Proof.
  unfold group_sizes. rewrite list_elem_of_fmap. unfold occurrences.
  naive_solver.
Qed.

(** A key of the list finds exactly one key equal to it. *)
Lemma sum_indicator keys x :
  NoDup keys → x ∈ keys →
  sum_list ((λ k, if decide (x = k) then 1 else 0) <$> keys) = 1.
Proof.
  induction 1 as [|k keys Hk Hnd IH]; [by intros ?%elem_of_nil|].
  rewrite fmap_cons, sum_list_cons. intros [->|Hin]%elem_of_cons.
  - rewrite decide_True by done.
    assert (sum_list ((λ k0, if decide (k = k0) then 1 else 0) <$> keys) = 0)
      as ->; [|done].
    clear IH Hnd. induction keys as [|k' keys IH]; [done|].
    rewrite fmap_cons, sum_list_cons.
    apply not_elem_of_cons in Hk as [? ?].
    rewrite decide_False by done. by rewrite IH.
  - rewrite decide_False by (intros ->; done). by rewrite IH.
Qed.

(** The group sizes add up to the length of the column when the keys are
    its distinct values. *)
Lemma sum_group_sizes keys col :
  NoDup keys → (∀ x, x ∈ col → x ∈ keys) →
  sum_list (group_sizes keys col).*2 = length col.
Proof.
  intros Hnd. rewrite snd_group_sizes.
  induction col as [|x col IH]; intros Hin.
  - clear Hnd Hin. induction keys as [|k keys IHk]; [done|].
    rewrite fmap_cons, sum_list_cons, IHk. done.
  - assert (sum_list ((λ k, occurrences k (x :: col)) <$> keys)
            = sum_list ((λ k, if decide (x = k) then 1 else 0) <$> keys)
              + sum_list ((λ k, occurrences k col) <$> keys)) as ->.
    { clear. induction keys as [|k keys IHk]; [done|].
      rewrite !fmap_cons, !sum_list_cons, IHk, occurrences_cons. lia. }
    rewrite sum_indicator by (try done; apply Hin; left).
    rewrite IH; [done|]. intros y Hy. apply Hin. by right.
Qed.

Lemma group_sizes_pos keys col :
  (∀ k, k ∈ keys → k ∈ col) →
  Forall (λ kn : A * nat, 0 < kn.2) (group_sizes keys col).
Proof.
  intros Hin. apply Forall_forall. intros [k n] [Hk ->]%elem_of_group_sizes.
  by apply occurrences_pos, Hin.
Qed.
End group_facts.

(** ** What [groupby(..).size()] and [value_counts()] return *)

Lemma groupby_size_keys (col : list string) :
  (groupby_size col).*1 ≡ₚ unique col.
Proof.
  unfold groupby_size. rewrite fst_group_sizes. apply merge_sort_Permutation.
Qed.

Lemma sum_groupby_size (col : list string) :
  sum_list (groupby_size col).*2 = length col.
Proof.
  unfold groupby_size. apply sum_group_sizes.
  - rewrite merge_sort_Permutation. apply NoDup_unique.
  - intros x Hx. rewrite merge_sort_Permutation. by apply elem_of_unique.
Qed.

Lemma groupby_size_pos (col : list string) :
  Forall (λ kn : string * nat, 0 < kn.2) (groupby_size col).
Proof.
  apply group_sizes_pos. intros k.
  rewrite merge_sort_Permutation. apply elem_of_unique.
Qed.

Lemma elem_of_groupby_size (col : list string) (k : string) (n : nat) :
  (k, n) ∈ groupby_size col ↔ k ∈ col ∧ n = occurrences k col.
Proof.
  unfold groupby_size.
  by rewrite elem_of_group_sizes, merge_sort_Permutation, elem_of_unique.
Qed.

Lemma NoDup_groupby_size (col : list string) : NoDup (groupby_size col).*1.
Proof. rewrite groupby_size_keys. apply NoDup_unique. Qed.

(** The groups come in increasing order of their key. *)
Lemma groupby_size_sorted (col : list string) :
  StronglySorted String.le (groupby_size col).*1.
Proof.
  unfold groupby_size. rewrite fst_group_sizes.
  apply (StronglySorted_merge_sort String.le).
Qed.

Section value_counts_facts.
Context {A : Type} `{EqDecision A}.

Global Instance count_ge_total : Total (@count_ge A).
Proof. intros kn1 kn2. unfold count_ge. lia. Qed.

Global Instance count_ge_trans : Transitive (@count_ge A).
Proof. intros kn1 kn2 kn3. unfold count_ge. lia. Qed.

Lemma insert_by_count_Permutation (kn : A * nat) (l : list (A * nat)) :
  insert_by_count kn l ≡ₚ kn :: l.
Proof.
  induction l as [|kn' l IH]; [done|].
  cbn [insert_by_count]. case_decide; [|done].
  rewrite IH. apply Permutation_swap.
Qed.

Lemma sort_by_count_Permutation (l : list (A * nat)) : sort_by_count l ≡ₚ l.
Proof.
  induction l as [|kn l IH]; [done|].
  cbn [sort_by_count foldr]. rewrite insert_by_count_Permutation.
  by constructor.
Qed.

Lemma insert_by_count_sorted (kn : A * nat) (l : list (A * nat)) :
  StronglySorted count_ge l → StronglySorted count_ge (insert_by_count kn l).
Proof.
  induction 1 as [|kn' l Hl IH Hhd]; [by repeat constructor|].
  cbn [insert_by_count]. case_decide as Hlt.
  - constructor; [done|]. rewrite insert_by_count_Permutation.
    constructor; [unfold count_ge; lia|done].
  - constructor; [by constructor|].
    assert (count_ge kn kn') as Hge by (unfold count_ge; lia).
    constructor; [done|]. eapply Forall_impl; [exact Hhd|].
    intros kn'' Hkn''. by etrans.
Qed.

Lemma sort_by_count_sorted (l : list (A * nat)) :
  StronglySorted count_ge (sort_by_count l).
Proof.
  induction l as [|kn l IH]; [constructor|].
  by apply insert_by_count_sorted.
Qed.

Lemma filter_insert_by_count (n : nat) (kn : A * nat) (l : list (A * nat)) :
  filter (λ kn, kn.2 = n) (insert_by_count kn l)
  = filter (λ kn, kn.2 = n) (kn :: l).
Proof.
  induction l as [|kn' l IH]; [done|].
  cbn [insert_by_count]. case_decide as Hlt; [|done].
  rewrite (filter_cons _ kn'), IH, !filter_cons.
  repeat case_decide; try done; lia.
Qed.

(** The sort keeps the entries of any one count in the order they had. *)
Lemma sort_by_count_stable (n : nat) (l : list (A * nat)) :
  filter (λ kn, kn.2 = n) (sort_by_count l) = filter (λ kn, kn.2 = n) l.
Proof.
  induction l as [|kn l IH]; [done|].
  cbn [sort_by_count foldr]. fold (sort_by_count l).
  by rewrite filter_insert_by_count, !filter_cons, IH.
Qed.

Lemma value_counts_Permutation (col : list A) :
  value_counts col ≡ₚ group_sizes (unique col) col.
Proof. apply sort_by_count_Permutation. Qed.

Lemma sum_value_counts (col : list A) :
  sum_list (value_counts col).*2 = length col.
Proof.
  rewrite value_counts_Permutation. apply sum_group_sizes.
  - apply NoDup_unique.
  - intros x. apply elem_of_unique.
Qed.

Lemma value_counts_pos (col : list A) :
  Forall (λ kn : A * nat, 0 < kn.2) (value_counts col).
Proof.
  rewrite value_counts_Permutation. apply group_sizes_pos.
  intros k. apply elem_of_unique.
Qed.

Lemma elem_of_value_counts (col : list A) (k : A) (n : nat) :
  (k, n) ∈ value_counts col ↔ k ∈ col ∧ n = occurrences k col.
Proof.
  by rewrite value_counts_Permutation, elem_of_group_sizes, elem_of_unique.
Qed.

Lemma value_counts_nil : value_counts ([] : list A) = [].
Proof. done. Qed.

(** The values come with the largest count first. *)
Lemma value_counts_sorted (col : list A) :
  StronglySorted count_ge (value_counts col).
Proof. apply sort_by_count_sorted. Qed.
End value_counts_facts.

(** ** The outcome labels *)

Lemma outcome_map_Str (c : Z) (s : string) :
  outcome_map c = Str s ↔
  (c = 1%Z ∧ s = "Success") ∨ (c = 0%Z ∧ s = "Failure").
Proof.
  unfold outcome_map. repeat case_decide; naive_solver.
Qed.

Lemma outcome_map_inj (c1 c2 : Z) (s : string) :
  outcome_map c1 = Str s → outcome_map c2 = Str s → c1 = c2.
Proof. rewrite !outcome_map_Str. naive_solver. Qed.

Lemma elem_of_outcome_names (keys col : list Z) (s : string) :
  s ∈ (omap named (outcome_slices keys col)).*1 →
  ∃ c, c ∈ keys ∧ outcome_map c = Str s.
Proof.
  rewrite list_elem_of_fmap. intros ([s' n] & -> & Hin).
  apply list_elem_of_omap in Hin as ([l n'] & Hin & Hnamed).
  apply list_elem_of_fmap in Hin as ([c m] & Heq & Hin).
  apply elem_of_group_sizes in Hin as [Hin _].
  exists c. split; [done|]. unfold named in Hnamed. simplify_eq/=.
  destruct (outcome_map c); by simplify_eq/=.
Qed.

Lemma NoDup_outcome_names (keys col : list Z) :
  NoDup keys → NoDup (omap named (outcome_slices keys col)).*1.
Proof.
  induction 1 as [|k keys Hk Hnd IH]; [constructor|].
  unfold outcome_slices, group_sizes. rewrite !fmap_cons. cbn [omap list_omap].
  unfold named at 1. cbn [fst snd].
  destruct (outcome_map k) as [s|] eqn:Hs; [|exact IH].
  rewrite fmap_cons. constructor; [|exact IH].
  intros (c & Hc & Hcs)%elem_of_outcome_names.
  by rewrite (outcome_map_inj _ _ _ Hs Hcs) in Hk.
Qed.

Lemma lookup_outcome_slices (keys col : list Z) (c : Z) (s : string) :
  outcome_map c = Str s →
  (list_to_map (omap named (outcome_slices keys col)) : gmap string nat) !! s
  = if decide (c ∈ keys) then Some (occurrences c col) else None.
Proof.
  intros Hc. induction keys as [|k keys IH].
  { rewrite decide_False by apply not_elem_of_nil. apply lookup_empty. }
  unfold outcome_slices, group_sizes. rewrite !fmap_cons. cbn [omap list_omap].
  unfold named at 1. cbn [fst snd].
  destruct (outcome_map k) as [s'|] eqn:Hs.
  - rewrite list_to_map_cons. destruct (decide (s' = s)) as [->|Hne].
    + rewrite (outcome_map_inj _ _ _ Hs Hc).
      rewrite lookup_insert_eq, decide_True by left. done.
    + rewrite lookup_insert_ne by done.
      assert (c ≠ k) by congruence.
      etrans; [apply IH|]. apply decide_ext. rewrite elem_of_cons. naive_solver.
  - assert (c ≠ k) by congruence.
    etrans; [apply IH|]. apply decide_ext. rewrite elem_of_cons. naive_solver.
Qed.

Lemma occurrences_two_valued (col : list Z) :
  Forall (λ c, c = 1%Z ∨ c = 0%Z) col →
  occurrences 1%Z col + occurrences 0%Z col = length col.
Proof.
  induction 1 as [|c col Hc _ IH]; [done|].
  rewrite !occurrences_cons. cbn [length].
  destruct Hc as [->| ->]; repeat case_decide; try done; lia.
Qed.

(** ** The callbacks in closed form *)

Lemma pie_slices_ALL (df : DataFrame) :
  pie_slices (get_pie_chart df "ALL")
  = (λ sn : string * nat, (Str sn.1, sn.2))
      <$> groupby_size (Launch_Site <$> filter succeeded df).
Proof.
  unfold get_pie_chart. rewrite decide_True by done. cbn [pie_slices].
  by rewrite (getitem_col_eq class).
Qed.

Lemma pie_slices_site (df : DataFrame) (site : string) :
  site ≠ "ALL" →
  pie_slices (get_pie_chart df site)
  = (λ cn : Z * nat, (outcome_map cn.1, cn.2))
      <$> value_counts (class <$> filter (at_site site) df).
Proof.
  intros Hsite. unfold get_pie_chart. rewrite decide_False by done.
  cbn [pie_slices]. by rewrite (getitem_col_eq Launch_Site).
Qed.

Lemma pie_mapping_ALL (df : DataFrame) :
  pie_mapping (get_pie_chart df "ALL")
  = list_to_map (groupby_size (Launch_Site <$> filter succeeded df)).
Proof.
  unfold pie_mapping. rewrite pie_slices_ALL. f_equal.
  induction (groupby_size _) as [|[s n] l IH]; [done|].
  rewrite fmap_cons. cbn. by rewrite IH.
Qed.

Lemma pie_mapping_site (df : DataFrame) (site : string) :
  site ≠ "ALL" →
  pie_mapping (get_pie_chart df site)
  = let col := class <$> filter (at_site site) df in
    list_to_map (omap named (outcome_slices (unique col) col)).
Proof.
  intros Hsite. unfold pie_mapping. rewrite pie_slices_site by done.
  cbv zeta. symmetry. apply list_to_map_proper.
  - apply NoDup_outcome_names, NoDup_unique.
  - unfold outcome_slices. by rewrite value_counts_Permutation.
Qed.

Lemma pie_count_site (df : DataFrame) (site : string) (c : Z) (s : string) :
  site ≠ "ALL" → outcome_map c = Str s →
  pie_count (get_pie_chart df site) s
  = occurrences c (class <$> filter (at_site site) df).
Proof.
  intros Hsite Hc. unfold pie_count. rewrite pie_mapping_site by done.
  cbv zeta. rewrite (lookup_outcome_slices _ _ c) by done.
  case_decide as Hin; [done|].
  rewrite elem_of_unique in Hin. by rewrite occurrences_zero.
Qed.

Lemma get_scatter_chart_records (df : DataFrame) (site : string)
    (low high : number) :
  scatter_records (get_scatter_chart df site [low; high])
  = Some (filter (kept df site low high) df).
Proof.
  unfold get_scatter_chart. rewrite getitem_between.
  case_decide as Hsite; cbn [scatter_records scatter_points]; f_equal.
  - apply list_filter_iff. unfold kept. naive_solver.
  - rewrite (getitem_col_eq Launch_Site).
    rewrite (list_filter_filter (λ r, Launch_Site r = site)
                                (passes df low high)).
    apply list_filter_iff. unfold kept, at_site. naive_solver.
Qed.


Lemma recorded_classes (df : DataFrame) (P : row → Prop)
    `{!∀ r, Decision (P r)} :
  outcomes_recorded df →
  Forall (λ c, c = 1%Z ∨ c = 0%Z) (class <$> filter P df).
Proof.
  unfold outcomes_recorded. rewrite Forall_fmap, !Forall_forall.
  intros Hrec r [_ Hr]%list_elem_of_filter. exact (Hrec r Hr).
Qed.

(** Widening a range keeps what was kept, when the bounds that take each
    other's place have one type or nothing is rounded. *)
Lemma kept_widen (df : DataFrame) (site : string)
    (low1 high1 low2 high2 : number) (r : row) :
  (value low2 ≤ value low1)%Qc → (value high1 ≤ value high2)%Qc →
  (same_type low1 low2 ∧ same_type high1 high2)
  ∨ (compared_exactly df low1 ∧ compared_exactly df high1
     ∧ compared_exactly df low2 ∧ compared_exactly df high2) →
  r ∈ df → kept df site low1 high1 r → kept df site low2 high2 r.
Proof.
  intros Hlow Hhigh Hcase Hr [Hpass Hsite]. split; [|done].
  destruct Hcase as [[Hl Hh]|(Hl1 & Hh1 & Hl2 & Hh2)].
  - destruct Hpass as [Hpl Hph]. unfold passes. cbv zeta.
    rewrite <-(compares_as_float_same_type _ low1 low2 Hl).
    rewrite <-(compares_as_float_same_type _ high1 high2 Hh). split.
    + etrans; [|exact Hpl]. apply operand_mono; [by symmetry|done].
    + etrans; [exact Hph|]. by apply operand_mono.
  - apply (passes_exactly df low1 high1 r Hl1 Hh1 Hr) in Hpass as [Hpl Hph].
    apply (passes_exactly df low2 high2 r Hl2 Hh2 Hr).
    split; by etrans.
Qed.


(** ** The scenario *)

(** C1: on the four-record data set, the success distribution over all
    sites is the mapping CCAFS to 1, KSC to 1; for the site CCAFS it is
    Success to 1, Failure to 1; the records filtered with no site and the
    range from 0 to 600 are the first two records in their original order;
    and those filtered with the site CCAFS and the range from 0 to 10000
    are records 1 and 4. *)
Theorem scenario_results :
  pie_mapping (get_pie_chart scenario "ALL") = {[ "CCAFS" := 1; "KSC" := 1 ]}
  ∧ pie_slices (get_pie_chart scenario "ALL")
      ≡ₚ [(Str "CCAFS", 1); (Str "KSC", 1)]
  ∧ pie_mapping (get_pie_chart scenario "CCAFS")
      = {[ "Success" := 1; "Failure" := 1 ]}
  ∧ pie_slices (get_pie_chart scenario "CCAFS")
      ≡ₚ [(Str "Success", 1); (Str "Failure", 1)]
  ∧ scatter_records (get_scatter_chart scenario "ALL" [kg 0; kg 600])
      = Some [record1; record2]
  ∧ scatter_records (get_scatter_chart scenario "CCAFS" [kg 0; kg 10000])
      = Some [record1; record4].
Proof.
  split_and!.
  - by vm_compute.
  - by assert (pie_slices (get_pie_chart scenario "ALL")
               = [(Str "CCAFS", 1); (Str "KSC", 1)]) as -> by by vm_compute.
  - by vm_compute.
  - by assert (pie_slices (get_pie_chart scenario "CCAFS")
               = [(Str "Success", 1); (Str "Failure", 1)]) as ->
      by by vm_compute.
  - by vm_compute.
  - by vm_compute.
Qed.

(** ** The loader *)

(** C2, as amended: when the read fails because the file is not found, the
    loader prints the notice and binds the built-in dummy data frame; when
    the read fails with any other exception (a malformed file among them),
    nothing is printed and that exception leaves the loader. *)
Theorem load_read_failure (read_csv : string → result DataFrame) (e : exn) :
  read_csv csv_path = Raise e →
  load read_csv
  = if decide (e = FileNotFoundError)
    then ([not_found_message], Ok dummy_df)
    else ([], Raise e).
Proof.
  intros Hread. unfold load. rewrite Hread. by destruct e.
Qed.

Lemma load_read_failure_witness :
  load (λ _, Raise FileNotFoundError) = ([not_found_message], Ok dummy_df).
Proof.
  exact (load_read_failure (λ _, Raise FileNotFoundError) FileNotFoundError
           eq_refl).
Defined.

(** C2, as stated, fails: there is a failing read, that of a malformed
    file, after which the loader yields no data set at all. *)
Lemma load_malformed_file_propagates :
  ∃ (read_csv : string → result DataFrame) (e : exn),
    read_csv csv_path = Raise e
    ∧ ∀ df, (load read_csv).2 ≠ Ok df.
Proof.
  exists (λ _, Raise ParserError), ParserError. split; [done|].
  intros df. discriminate.
Qed.

(** C9: when the file does not exist, the loader yields a data set that is
    not empty, has at least one distinct site, and has at least one
    success record and at least one failure record. *)
Theorem load_missing_file (read_csv : string → result DataFrame) :
  read_csv csv_path = Raise FileNotFoundError →
  ∃ df, (load read_csv).2 = Ok df
        ∧ df ≠ []
        ∧ 1 ≤ length (launch_sites df)
        ∧ Exists succeeded df
        ∧ Exists failed df.
Proof.
  intros Hread. exists dummy_df. unfold load. rewrite Hread.
  split_and!; [done|done|vm_compute; lia|..].
  - apply Exists_cons_tl, Exists_cons_hd. reflexivity.
  - apply Exists_cons_hd. reflexivity.
Qed.

Lemma load_missing_file_witness :
  ∃ df, (load (λ _, Raise FileNotFoundError)).2 = Ok df
        ∧ df ≠ []
        ∧ 1 ≤ length (launch_sites df)
        ∧ Exists succeeded df
        ∧ Exists failed df.
Proof. exact (load_missing_file (λ _, Raise FileNotFoundError) eq_refl). Defined.

(** ** The success distribution *)

(** C3: with no site selected, the counts of the success distribution add
    up to the number of success records of the whole data set. *)
Theorem success_distribution_ALL_total (df : DataFrame) :
  sum_list (pie_slices (get_pie_chart df "ALL")).*2
  = length (filter succeeded df)
  ∧ sum_list (map_to_list (pie_mapping (get_pie_chart df "ALL"))).*2
    = length (filter succeeded df).
Proof.
  split.
  - rewrite pie_slices_ALL, <-list_fmap_compose.
    etrans; [apply sum_groupby_size|]. apply length_fmap.
  - rewrite pie_mapping_ALL.
    rewrite map_to_list_to_map by apply NoDup_groupby_size.
    etrans; [apply sum_groupby_size|]. apply length_fmap.
Qed.

(** C4, as amended: on a data set whose outcomes are all stored as 1 or 0,
    and for a site other than the string 'ALL', the count of Success plus
    the count of Failure, a missing name counting as zero, is the number of
    records of that site. *)
Theorem success_distribution_site_partition (df : DataFrame) (site : string) :
  outcomes_recorded df → site ≠ "ALL" →
  pie_count (get_pie_chart df site) "Success"
  + pie_count (get_pie_chart df site) "Failure"
  = length (filter (at_site site) df).
Proof.
  intros Hrec Hsite.
  rewrite (pie_count_site df site 1%Z), (pie_count_site df site 0%Z) by done.
  rewrite occurrences_two_valued by by apply recorded_classes.
  apply length_fmap.
Qed.

Lemma success_distribution_site_partition_witness :
  pie_count (get_pie_chart scenario "CCAFS") "Success"
  + pie_count (get_pie_chart scenario "CCAFS") "Failure"
  = length (filter (at_site "CCAFS") scenario).
Proof.
  apply success_distribution_site_partition; [|discriminate].
  repeat constructor; by vm_compute.
Defined.

(** C4, as stated, fails twice over.  A data set that meets every invariant
    can hold a site called 'ALL': selecting it gives the chart of all
    sites, which has no Success and no Failure, against two records of the
    site.  And a record whose class is neither 1 nor 0 is counted under
    neither name. *)
Lemma success_distribution_site_not_partitioned :
  (well_formed site_called_ALL
   ∧ pie_count (get_pie_chart site_called_ALL "ALL") "Success"
     + pie_count (get_pie_chart site_called_ALL "ALL") "Failure" = 0
   ∧ length (filter (at_site "ALL") site_called_ALL) = 2)
  ∧ (pie_count (get_pie_chart [class_two] "KSC") "Success"
     + pie_count (get_pie_chart [class_two] "KSC") "Failure" = 0
     ∧ length (filter (at_site "KSC") [class_two]) = 1).
Proof.
  split_and!; try by vm_compute.
  unfold well_formed, site_called_ALL. repeat constructor; by vm_compute.
Qed.

(** C6: with no site selected, a site is a key of the success distribution
    exactly when it has a success record; a site without one is absent, not
    present with the count 0. *)
Theorem success_distribution_ALL_keys (df : DataFrame) (site : string) :
  (is_Some (pie_mapping (get_pie_chart df "ALL") !! site)
   ↔ ∃ r, r ∈ df ∧ Launch_Site r = site ∧ succeeded r)
  ∧ pie_mapping (get_pie_chart df "ALL") !! site ≠ Some 0.
Proof.
  rewrite pie_mapping_ALL.
  set (col := Launch_Site <$> filter succeeded df).
  assert (∀ n, (list_to_map (groupby_size col) : gmap string nat) !! site
               = Some n ↔ site ∈ col ∧ n = occurrences site col) as Hlookup.
  { intros n. rewrite <-elem_of_list_to_map by apply NoDup_groupby_size.
    apply elem_of_groupby_size. }
  assert (site ∈ col ↔ ∃ r, r ∈ df ∧ Launch_Site r = site ∧ succeeded r)
    as Hcol.
  { unfold col. rewrite list_elem_of_fmap.
    setoid_rewrite list_elem_of_filter. naive_solver. }
  split.
  - rewrite <-Hcol. unfold is_Some. setoid_rewrite Hlookup. naive_solver.
  - rewrite Hlookup. intros [Hin Hzero].
    apply occurrences_pos in Hin. lia.
Qed.

(** C10: in both branches every count of the success distribution is
    strictly positive; no name is present with the count 0. *)
Theorem success_distribution_counts_positive (df : DataFrame)
    (site : string) :
  Forall (λ ln : label * nat, 0 < ln.2) (pie_slices (get_pie_chart df site))
  ∧ map_Forall (λ _ n, 0 < n) (pie_mapping (get_pie_chart df site)).
Proof.
  assert (Forall (λ ln : label * nat, 0 < ln.2)
            (pie_slices (get_pie_chart df site))) as Hslices.
  { destruct (decide (site = "ALL")) as [->|Hsite].
    - rewrite pie_slices_ALL, Forall_fmap. apply groupby_size_pos.
    - rewrite pie_slices_site, Forall_fmap by done. apply value_counts_pos. }
  split; [done|].
  apply map_Forall_lookup. intros name n Hname.
  apply elem_of_list_to_map_2, list_elem_of_omap in Hname
    as ([l m] & Hin & Hnamed).
  rewrite Forall_forall in Hslices. specialize (Hslices _ Hin).
  unfold named in Hnamed. destruct l; by simplify_eq/=.
Qed.

(** ** The filtered records *)

(** C5, as amended: widening the payload range never decreases the number
    of filtered records, when each bound of the wider range has the numeric
    type of the bound it replaces, or when no comparison rounds. *)
Theorem filtered_records_monotone (df : DataFrame) (site : string)
    (low1 high1 low2 high2 : number) :
  (value low2 ≤ value low1)%Qc → (value high1 ≤ value high2)%Qc →
  (same_type low1 low2 ∧ same_type high1 high2)
  ∨ (compared_exactly df low1 ∧ compared_exactly df high1
     ∧ compared_exactly df low2 ∧ compared_exactly df high2) →
  ∃ rows1 rows2,
    scatter_records (get_scatter_chart df site [low1; high1]) = Some rows1
    ∧ scatter_records (get_scatter_chart df site [low2; high2]) = Some rows2
    ∧ length rows1 ≤ length rows2.
Proof.
  intros Hlow Hhigh Hcase. eexists _, _.
  split_and!; [apply get_scatter_chart_records..|].
  apply length_filter_impl. intros r Hr. by apply kept_widen.
Qed.

Lemma filtered_records_monotone_witness :
  ∃ rows1 rows2,
    scatter_records (get_scatter_chart scenario "ALL" [kg 600; kg 700])
    = Some rows1
    ∧ scatter_records (get_scatter_chart scenario "ALL" [kg 0; kg 10000])
      = Some rows2
    ∧ length rows1 ≤ length rows2.
Proof.
  apply filtered_records_monotone; [by vm_compute..|]. by left.
Defined.

(** C5, as stated, fails: on the integer payloads 2^53 + 1 and 2^53 the
    range from 0 to the float 2^53 keeps both records, the column being
    rounded to float64 for the comparison, and the range from 0 to the
    integer 2^53, which is as wide, keeps one. *)
Lemma filtered_records_not_monotone :
  ∃ (df : DataFrame) (site : string) (low1 high1 low2 high2 : number),
    (value low2 ≤ value low1)%Qc ∧ (value high1 ≤ value high2)%Qc
    ∧ ∃ rows1 rows2,
        scatter_records (get_scatter_chart df site [low1; high1])
        = Some rows1
        ∧ scatter_records (get_scatter_chart df site [low2; high2])
          = Some rows2
        ∧ length rows2 < length rows1.
Proof.
  exists [heavy1; heavy2], "ALL",
    (Int 0), (Float (Qc_of_Z (2 ^ 53))), (Int 0), (Int (2 ^ 53)).
  split_and!; [by vm_compute..|].
  exists [heavy1; heavy2], [heavy2]. split_and!; [by vm_compute..|].
  cbn. lia.
Qed.

(** C7, as amended: the filtered records are a subsequence of the data set
    in its order: the records of the selected site that pass the two
    comparisons of the mask.  They are the records with a payload from
    [low] to [high] whenever the two comparisons round nothing. *)
Theorem filtered_records_in_order (df : DataFrame) (site : string)
    (low high : number) :
  ∃ rows,
    scatter_records (get_scatter_chart df site [low; high]) = Some rows
    ∧ rows `sublist_of` df
    ∧ rows = filter (kept df site low high) df
    ∧ (compared_exactly df low → compared_exactly df high →
       rows = filter (selected site low high) df).
Proof.
  eexists. split_and!; [apply get_scatter_chart_records| |done|].
  - apply sublist_filter.
  - intros Hlow Hhigh. apply filter_ext_in. intros r Hr.
    unfold kept, selected. by rewrite (passes_exactly df low high r).
Qed.

(** C7, as stated, fails: with the range from 0 to the float 2^53 the
    integer payload 2^53 + 1 is returned, which is no matching record. *)
Lemma filtered_records_not_matching :
  ∃ (df : DataFrame) (site : string) (low high : number) rows r,
    scatter_records (get_scatter_chart df site [low; high]) = Some rows
    ∧ r ∈ rows
    ∧ ¬ selected site low high r.
Proof.
  exists [heavy1; heavy2], "ALL", (Int 0), (Float (Qc_of_Z (2 ^ 53))),
    [heavy1; heavy2], heavy1.
  split_and!; [by vm_compute|left|].
  intros [[_ Hhigh] _]. by vm_compute in Hhigh.
Qed.

(** ** Degenerate filters *)

(** C8, as amended: neither query raises.  The filtered-records query
    returns a chart for every site and every pair of bounds, an empty one
    when the range has its low end above its high end and the two
    comparisons round nothing; the success distribution, which no step of
    [get_pie_chart] can fail to return, is the empty mapping for a site,
    other than the string 'ALL', that the data set does not have. *)
Theorem queries_do_not_raise (df : DataFrame) (site : string)
    (low high : number) :
  (∃ fig, get_scatter_chart df site [low; high] = Ok fig
          ∧ (compared_exactly df low → compared_exactly df high →
             (value high < value low)%Qc → scatter_points fig = []))
  ∧ (site ≠ "ALL" → site ∉ launch_sites df →
     pie_slices (get_pie_chart df site) = []
     ∧ pie_mapping (get_pie_chart df site) = ∅).
Proof.
  split.
  - pose proof (get_scatter_chart_records df site low high) as Hrec.
    destruct (get_scatter_chart df site [low; high]) as [fig|e] eqn:Hfig;
      [|done].
    exists fig. split; [done|]. intros Hlow Hhigh Hlt.
    injection Hrec as ->.
    apply filter_none. intros r Hr [Hpass _].
    apply (passes_exactly df low high r Hlow Hhigh Hr) in Hpass as [Hl Hh].
    apply (Qclt_not_le _ _ Hlt). by etrans.
  - intros Hsite Habsent.
    assert (pie_slices (get_pie_chart df site) = []) as Hnil.
    { rewrite pie_slices_site by done.
      rewrite (filter_none (at_site site)); [done|].
      intros r Hr Hat. apply Habsent. unfold launch_sites.
      rewrite elem_of_unique, list_elem_of_fmap. by exists r. }
    split; [done|]. unfold pie_mapping. by rewrite Hnil.
Qed.

(** C8, as stated, fails: the range from the integer 2^53 + 1 down to the
    float 2^53 has its low end above its high end, and keeps the integer
    payload 2^53 + 1: it is compared with the low end as an integer and
    with the high end as a float64. *)
Lemma reversed_range_not_empty :
  ∃ (df : DataFrame) (site : string) (low high : number) fig,
    (value high < value low)%Qc
    ∧ get_scatter_chart df site [low; high] = Ok fig
    ∧ scatter_points fig ≠ [].
Proof.
  exists [heavy1], "ALL", (Int (2 ^ 53 + 1)), (Float (Qc_of_Z (2 ^ 53))).
  eexists. split_and!; [by vm_compute|by vm_compute|]. by vm_compute.
Qed.

(** The degenerate filters on the scenario: a reversed range, a range above
    every payload, and a site the data set does not have. *)
Example scenario_degenerate_filters :
  scatter_records (get_scatter_chart scenario "ALL" [kg 600; kg 0]) = Some []
  ∧ scatter_records (get_scatter_chart scenario "KSC" [kg 9000; kg 10000])
    = Some []
  ∧ pie_mapping (get_pie_chart scenario "Boca Chica") = ∅.
Proof. split_and!; by vm_compute. Qed.

(** * Further properties of the script *)

(** ** The payload bounds *)

Lemma num_max_cases (x y : number) :
  (value x ≤ value (num_max x y))%Qc ∧ (value y ≤ value (num_max x y))%Qc
  ∧ (num_max x y = x ∨ num_max x y = y).
Proof.
  unfold num_max. case_decide as Hxy; [by auto|].
  split_and!; [done| |by left]. by destruct (total Qcle (value x) (value y)).
Qed.

Lemma num_min_cases (x y : number) :
  (value (num_min x y) ≤ value x)%Qc ∧ (value (num_min x y) ≤ value y)%Qc
  ∧ (num_min x y = x ∨ num_min x y = y).
Proof.
  unfold num_min. case_decide as Hxy; [by auto|].
  split_and!; [|done|by right]. by destruct (total Qcle (value x) (value y)).
Qed.

Lemma foldl_num_max (x : number) (l : list number) :
  Forall (λ y, (value y ≤ value (foldl num_max x l))%Qc) (x :: l)
  ∧ foldl num_max x l ∈ x :: l.
Proof.
  revert x. induction l as [|y l IH]; intros x.
  { cbn. split; [by repeat constructor|left]. }
  cbn [foldl]. destruct (IH (num_max x y)) as [Hge Hin].
  destruct (num_max_cases x y) as (Hx & Hy & Hxy).
  apply Forall_cons in Hge as [Hm Hge]. split.
  - repeat apply Forall_cons_2; [by etrans..|done].
  - apply elem_of_cons in Hin as [->|Hin]; [|by do 2 right].
    destruct Hxy as [-> | ->]; [left|right; left].
Qed.

Lemma foldl_num_min (x : number) (l : list number) :
  Forall (λ y, (value (foldl num_min x l) ≤ value y)%Qc) (x :: l)
  ∧ foldl num_min x l ∈ x :: l.
Proof.
  revert x. induction l as [|y l IH]; intros x.
  { cbn. split; [by repeat constructor|left]. }
  cbn [foldl]. destruct (IH (num_min x y)) as [Hle Hin].
  destruct (num_min_cases x y) as (Hx & Hy & Hxy).
  apply Forall_cons in Hle as [Hm Hle]. split.
  - repeat apply Forall_cons_2; [by etrans..|done].
  - apply elem_of_cons in Hin as [->|Hin]; [|by do 2 right].
    destruct Hxy as [-> | ->]; [left|right; left].
Qed.

Lemma col_max_Some (col : list number) (m : number) :
  col_max col = Some m →
  Forall (λ y, (value y ≤ value m)%Qc) (stored col) ∧ m ∈ stored col.
Proof.
  unfold col_max. destruct (stored col) as [|x col']; [done|].
  intros [= <-]. apply foldl_num_max.
Qed.

Lemma col_min_Some (col : list number) (m : number) :
  col_min col = Some m →
  Forall (λ y, (value m ≤ value y)%Qc) (stored col) ∧ m ∈ stored col.
Proof.
  unfold col_min. destruct (stored col) as [|x col']; [done|].
  intros [= <-]. apply foldl_num_min.
Qed.

Lemma stored_nil_iff (col : list number) : stored col = [] ↔ col = [].
Proof. unfold stored. by destruct col, (float_dtype _). Qed.

(** A bound taken from the stored column is compared in the dtype of the
    column, and this comparison takes every cell at its stored value. *)
Lemma compared_with_stored (col : list number) (b c : number) :
  b ∈ stored col → c ∈ col →
  ∃ c', c' ∈ stored col
        ∧ operand (compares_as_float col b) b = value b
        ∧ operand (compares_as_float col b) c = value c'.
Proof.
  unfold stored, compares_as_float.
  destruct (float_dtype col) eqn:Hcol; intros Hb Hc.
  - exists (Float (as_float c)). split_and!.
    + apply list_elem_of_fmap. by exists c.
    + by apply list_elem_of_fmap in Hb as (b' & -> & _).
    + done.
  - exists c. rewrite (float_dtype_false col b Hcol Hb). by split_and!.
Qed.

Lemma filter_all {A : Type} (P : A → Prop) `{!∀ x, Decision (P x)}
    (l : list A) :
  filter P l = l ↔ ∀ x, x ∈ l → P x.
Proof.
  split.
  - intros Heq x Hx. rewrite <-Heq in Hx.
    by apply list_elem_of_filter in Hx as [HP _].
  - intros Hall. induction l as [|x l IH]; [done|].
    rewrite filter_cons, decide_True by (apply Hall; left).
    f_equal. apply IH. intros y Hy. apply Hall. by right.
Qed.

Lemma payload_extremes_exist (df : DataFrame) :
  df ≠ [] → ∃ lo hi, min_payload df = Some lo ∧ max_payload df = Some hi.
Proof.
  intros Hdf. unfold min_payload, max_payload, col_min, col_max.
  destruct (stored (Payload_Mass <$> df)) as [|x col] eqn:Hcol.
  - apply stored_nil_iff, fmap_nil_inv in Hcol. done.
  - by eexists _, _.
Qed.

(** Every record passes the comparisons with the two bounds of its own
    payload column. *)
Lemma passes_own_bounds (df : DataFrame) (lo hi : number) (r : row) :
  min_payload df = Some lo → max_payload df = Some hi → r ∈ df →
  passes df lo hi r.
Proof.
  intros [Hmin Hlo]%col_min_Some [Hmax Hhi]%col_max_Some Hr.
  assert (Payload_Mass r ∈ Payload_Mass <$> df) as Hc.
  { apply list_elem_of_fmap. by exists r. }
  rewrite Forall_forall in Hmin, Hmax. unfold passes. cbv zeta. split.
  - destruct (compared_with_stored _ lo _ Hlo Hc) as (c' & Hc' & -> & ->).
    by apply Hmin.
  - destruct (compared_with_stored _ hi _ Hhi Hc) as (c' & Hc' & -> & ->).
    by apply Hmax.
Qed.

(** X1: on a data set without records the payload bounds are missing.  On
    a data set with records, each with its payload, either bound is a cell
    of the payload column as pandas stores it, and the minimum is at most
    and the maximum at least every cell of that column. *)
Theorem payload_bounds (df : DataFrame) :
  (df = [] → min_payload df = None ∧ max_payload df = None)
  ∧ (df ≠ [] →
     ∃ lo hi,
       min_payload df = Some lo ∧ max_payload df = Some hi
       ∧ lo ∈ stored (Payload_Mass <$> df)
       ∧ hi ∈ stored (Payload_Mass <$> df)
       ∧ ∀ c, c ∈ stored (Payload_Mass <$> df) →
              (value lo ≤ value c)%Qc ∧ (value c ≤ value hi)%Qc).
Proof.
  split; [by intros ->|]. intros Hdf.
  destruct (payload_extremes_exist df Hdf) as (lo & hi & Hlo & Hhi).
  exists lo, hi. split_and!; [done|done|..].
  - by apply col_min_Some in Hlo as [_ ?].
  - by apply col_max_Some in Hhi as [_ ?].
  - apply col_min_Some in Hlo as [Hmin _].
    apply col_max_Some in Hhi as [Hmax _].
    rewrite Forall_forall in Hmin, Hmax. intros c Hc. split; auto.
Qed.

(** X2: on a data set with records, the range the slider starts with, from
    the least payload to the greatest, with no site selected, plots every
    record of the data set. *)
Theorem default_range_plots_all (df : DataFrame) :
  df ≠ [] →
  ∃ lo hi, min_payload df = Some lo ∧ max_payload df = Some hi
           ∧ (value lo ≤ value hi)%Qc
           ∧ scatter_records (get_scatter_chart df "ALL" [lo; hi]) = Some df.
Proof.
  intros Hdf. destruct (payload_extremes_exist df Hdf) as (lo & hi & Hlo & Hhi).
  exists lo, hi. split_and!; [done|done| |].
  - pose proof Hlo as [Hmin _]%col_min_Some.
    pose proof Hhi as [_ Hin]%col_max_Some.
    rewrite Forall_forall in Hmin. by apply Hmin.
  - rewrite get_scatter_chart_records. f_equal. apply filter_all.
    intros r Hr. split; [|by left]. by apply passes_own_bounds.
Qed.

Lemma default_range_plots_all_witness :
  ∃ lo hi, min_payload scenario = Some lo ∧ max_payload scenario = Some hi
           ∧ (value lo ≤ value hi)%Qc
           ∧ scatter_records (get_scatter_chart scenario "ALL" [lo; hi])
             = Some scenario.
Proof. apply default_range_plots_all. discriminate. Defined.

(** ** The launch sites and the dropdown options *)

Lemma unique_sublist {A : Type} `{EqDecision A} (col : list A) :
  unique col `sublist_of` col.
Proof.
  induction col as [|x col IH]; [done|].
  cbn [unique]. apply sublist_skip. etrans; [apply sublist_filter|done].
Qed.

Lemma unique_nil_iff {A : Type} `{EqDecision A} (col : list A) :
  unique col = [] ↔ col = [].
Proof. by destruct col. Qed.

Lemma fmap_nil_iff {A B : Type} (f : A → B) (l : list A) :
  f <$> l = [] ↔ l = [].
Proof. by destruct l. Qed.

Lemma length_unique {A : Type} `{EqDecision A} (col : list A) :
  length (unique col) ≤ length col.
Proof. apply sublist_length, unique_sublist. Qed.

(** X3: the launch sites list every site of the data set once: without
    repetition, as a subsequence of the site column that starts with the
    site of the first record. *)
Theorem launch_sites_distinct (df : DataFrame) :
  NoDup (launch_sites df)
  ∧ (∀ site, site ∈ launch_sites df ↔ ∃ r, r ∈ df ∧ Launch_Site r = site)
  ∧ launch_sites df `sublist_of` (Launch_Site <$> df)
  ∧ head (launch_sites df) = Launch_Site <$> head df.
Proof.
  unfold launch_sites. split_and!.
  - apply NoDup_unique.
  - intros site. rewrite elem_of_unique, list_elem_of_fmap. naive_solver.
  - apply unique_sublist.
  - by destruct df.
Qed.

Lemma elem_of_launch_sites (df : DataFrame) (site : string) :
  site ∈ launch_sites df ↔ ∃ r, r ∈ df ∧ at_site site r.
Proof.
  unfold launch_sites, at_site.
  rewrite elem_of_unique, list_elem_of_fmap. naive_solver.
Qed.

Lemma snd_site_options (df : DataFrame) :
  (site_options df).*2 = "ALL" :: launch_sites df.
Proof.
  unfold site_options. rewrite fmap_cons, <-list_fmap_compose. cbn [snd].
  f_equal. apply list_fmap_id.
Qed.

(** X4: the dropdown offers the entry 'All Sites' with the value 'ALL',
    and besides it exactly one entry for every site of the data set, whose
    label and value are both the site. *)
Theorem site_options_offered (df : DataFrame) (name value : string) :
  (name, value) ∈ site_options df ↔
  (name = "All Sites" ∧ value = "ALL")
  ∨ (name = value ∧ ∃ r, r ∈ df ∧ Launch_Site r = value).
Proof.
  unfold site_options, launch_sites.
  rewrite elem_of_cons, list_elem_of_fmap.
  setoid_rewrite elem_of_unique. setoid_rewrite list_elem_of_fmap.
  naive_solver.
Qed.

(** X5: the values of the dropdown options are pairwise distinct exactly
    when no record has a site that is itself called 'ALL'; there is one
    option more than there are distinct sites. *)
Theorem site_options_values (df : DataFrame) :
  (NoDup (site_options df).*2 ↔ ∀ r, r ∈ df → Launch_Site r ≠ "ALL")
  ∧ length (site_options df) = S (length (launch_sites df)).
Proof.
  split.
  - rewrite snd_site_options, NoDup_cons, elem_of_launch_sites.
    unfold at_site. split.
    + intros [Hno _] r Hr Hsite. apply Hno. by exists r.
    + intros Hno. split; [|apply NoDup_unique].
      intros (r & Hr & Hsite). by apply (Hno r).
  - unfold site_options. cbn [length]. by rewrite length_fmap.
Qed.

(** ** The pie chart, slice by slice *)

Lemma occurrences_fmap {A B : Type} `{EqDecision B} (f : A → B) (k : B)
    (l : list A) :
  occurrences k (f <$> l) = length (filter (λ r, f r = k) l).
Proof.
  induction l as [|r l IH]; [done|].
  rewrite fmap_cons, occurrences_cons, filter_cons, IH.
  by destruct (decide (f r = k)).
Qed.

Lemma lookup_groupby_size (col : list string) (k : string) :
  (list_to_map (groupby_size col) : gmap string nat) !! k
  = if decide (k ∈ col) then Some (occurrences k col) else None.
Proof.
  case_decide as Hk.
  - apply elem_of_list_to_map; [apply NoDup_groupby_size|].
    by apply elem_of_groupby_size.
  - apply not_elem_of_list_to_map.
    by rewrite groupby_size_keys, elem_of_unique.
Qed.

Lemma pie_count_ALL (df : DataFrame) (site : string) :
  pie_count (get_pie_chart df "ALL") site
  = occurrences site (Launch_Site <$> filter succeeded df).
Proof.
  unfold pie_count. rewrite pie_mapping_ALL, lookup_groupby_size.
  case_decide as Hin; [done|]. by rewrite occurrences_zero.
Qed.

Lemma count_at_site (df : DataFrame) (site : string) (c : Z) :
  occurrences c (class <$> filter (at_site site) df)
  = length (filter (λ r, class r = c ∧ at_site site r) df).
Proof.
  rewrite occurrences_fmap.
  by rewrite (list_filter_filter (λ r, class r = c) (at_site site)).
Qed.

Lemma length_pie_slices_site (df : DataFrame) (site : string) :
  site ≠ "ALL" →
  length (pie_slices (get_pie_chart df site))
  = length (unique (class <$> filter (at_site site) df)).
Proof.
  intros Hsite. rewrite pie_slices_site, length_fmap by done.
  rewrite value_counts_Permutation. unfold group_sizes. apply length_fmap.
Qed.

(** X6: with no site selected, the count the chart gives for a site is the
    number of success records of that site, zero when the site has no
    slice. *)
Theorem pie_ALL_counts (df : DataFrame) (site : string) :
  pie_count (get_pie_chart df "ALL") site
  = length (filter (λ r, at_site site r ∧ succeeded r) df).
Proof.
  rewrite pie_count_ALL, occurrences_fmap.
  by rewrite (list_filter_filter (at_site site) succeeded).
Qed.

(** X7: with a site selected, the count of Success is the number of
    records of the site with class 1 and the count of Failure the number
    of those with class 0; a slice whose name is a string is named Success
    or Failure, so that any other slice is named NaN. *)
Theorem pie_site_counts (df : DataFrame) (site : string) :
  site ≠ "ALL" →
  pie_count (get_pie_chart df site) "Success"
  = length (filter (λ r, succeeded r ∧ at_site site r) df)
  ∧ pie_count (get_pie_chart df site) "Failure"
    = length (filter (λ r, failed r ∧ at_site site r) df)
  ∧ ∀ name n, (name, n) ∈ pie_slices (get_pie_chart df site) →
              name = Str "Success" ∨ name = Str "Failure" ∨ name = NaN.
Proof.
  intros Hsite. split_and!.
  - rewrite (pie_count_site df site 1%Z) by done. apply count_at_site.
  - rewrite (pie_count_site df site 0%Z) by done. apply count_at_site.
  - intros name n. rewrite pie_slices_site by done.
    intros ([c m] & [= -> ->] & _)%list_elem_of_fmap.
    cbn. unfold outcome_map. repeat case_decide; auto.
Qed.

Lemma pie_site_counts_witness :
  pie_count (get_pie_chart scenario "KSC") "Success"
  = length (filter (λ r, succeeded r ∧ at_site "KSC" r) scenario)
  ∧ pie_count (get_pie_chart scenario "KSC") "Failure"
    = length (filter (λ r, failed r ∧ at_site "KSC" r) scenario)
  ∧ ∀ name n, (name, n) ∈ pie_slices (get_pie_chart scenario "KSC") →
              name = Str "Success" ∨ name = Str "Failure" ∨ name = NaN.
Proof. apply pie_site_counts. discriminate. Defined.

(** X8: the two branches agree: the count that the chart of all sites
    gives for a site is the count of Success in the chart of that site. *)
Theorem pie_ALL_agrees_with_site (df : DataFrame) (site : string) :
  site ≠ "ALL" →
  pie_count (get_pie_chart df "ALL") site
  = pie_count (get_pie_chart df site) "Success".
Proof.
  intros Hsite. rewrite pie_count_ALL, (pie_count_site df site 1%Z) by done.
  rewrite count_at_site, occurrences_fmap.
  rewrite (list_filter_filter (at_site site) succeeded).
  f_equal. apply list_filter_iff. unfold succeeded, at_site. naive_solver.
Qed.

Lemma pie_ALL_agrees_with_site_witness :
  pie_count (get_pie_chart scenario "ALL") "CCAFS"
  = pie_count (get_pie_chart scenario "CCAFS") "Success".
Proof. apply pie_ALL_agrees_with_site. discriminate. Defined.

(** X9: with a site selected, the values of all slices, those named NaN
    included, add up to the number of records of the site, whatever
    integers the classes of its records are. *)
Theorem pie_site_total (df : DataFrame) (site : string) :
  site ≠ "ALL" →
  sum_list (pie_slices (get_pie_chart df site)).*2
  = length (filter (at_site site) df).
Proof.
  intros Hsite. rewrite pie_slices_site, <-list_fmap_compose by done.
  etrans; [apply sum_value_counts|]. apply length_fmap.
Qed.

Lemma pie_site_total_witness :
  sum_list (pie_slices (get_pie_chart scenario "CCAFS")).*2
  = length (filter (at_site "CCAFS") scenario).
Proof. apply pie_site_total. discriminate. Defined.

(** X10: with a site selected, the chart has a slice named NaN exactly
    when some record of the site has, as its class, an integer that is
    neither 1 nor 0. *)
Theorem pie_site_NaN_slice (df : DataFrame) (site : string) :
  site ≠ "ALL" →
  (∃ n, (NaN, n) ∈ pie_slices (get_pie_chart df site))
  ↔ ∃ r, r ∈ df ∧ at_site site r ∧ class r ≠ 1%Z ∧ class r ≠ 0%Z.
Proof.
  intros Hsite. rewrite pie_slices_site by done.
  setoid_rewrite list_elem_of_fmap. split.
  - intros (n & [c m] & Heq & Hin). cbn in Heq. injection Heq as Hname _.
    apply elem_of_value_counts in Hin as [Hin _].
    apply list_elem_of_fmap in Hin as (r & -> & Hr).
    apply list_elem_of_filter in Hr as [Hat Hr].
    exists r. split_and!; [done|done|..];
      intros Hc; rewrite Hc in Hname; discriminate.
  - intros (r & Hr & Hat & H1 & H0).
    exists (occurrences (class r) (class <$> filter (at_site site) df)).
    eexists (class r, _). split.
    + cbn. unfold outcome_map. by rewrite !decide_False.
    + apply elem_of_value_counts. split; [|done].
      apply list_elem_of_fmap. exists r. split; [done|].
      by apply list_elem_of_filter.
Qed.

Lemma pie_site_NaN_slice_witness :
  ∃ n, (NaN, n) ∈ pie_slices (get_pie_chart [record3; class_two] "KSC").
Proof.
  apply (pie_site_NaN_slice [record3; class_two] "KSC"); [discriminate|].
  exists class_two. split_and!; [by right; left|done..].
Defined.




(** X12: with no site selected, the slices are named by launch sites, in
    increasing order of the site name and without repetition; so there are
    no more slices than launch sites. *)
Theorem pie_ALL_slice_names (df : DataFrame) :
  ∃ sites,
    (pie_slices (get_pie_chart df "ALL")).*1 = Str <$> sites
    ∧ StronglySorted String.le sites
    ∧ NoDup sites
    ∧ (∀ site, site ∈ sites → site ∈ launch_sites df)
    ∧ length (pie_slices (get_pie_chart df "ALL")) ≤ length (launch_sites df).
Proof.
  set (col := Launch_Site <$> filter succeeded df).
  assert (∀ site, site ∈ (groupby_size col).*1 → site ∈ launch_sites df)
    as Hsub.
  { intros site. rewrite groupby_size_keys, elem_of_unique.
    unfold col. rewrite list_elem_of_fmap.
    intros (r & -> & [_ Hr]%list_elem_of_filter).
    apply elem_of_launch_sites. by exists r. }
  exists (groupby_size col).*1. split_and!.
  - rewrite pie_slices_ALL. fold col. by rewrite <-!list_fmap_compose.
  - apply groupby_size_sorted.
  - apply NoDup_groupby_size.
  - done.
  - rewrite pie_slices_ALL. fold col.
    rewrite length_fmap, <-(length_fmap fst).
    apply submseteq_length, NoDup_submseteq; [apply NoDup_groupby_size|done].
Qed.

(** X13: a chart without slices: with a site selected, exactly when the
    data set has no record of the site; with no site selected, exactly when
    it has no success record. *)
Theorem pie_no_slices (df : DataFrame) (site : string) :
  (site ≠ "ALL" →
   pie_slices (get_pie_chart df site) = [] ↔ site ∉ launch_sites df)
  ∧ (pie_slices (get_pie_chart df "ALL") = []
     ↔ ∀ r, r ∈ df → ¬ succeeded r).
Proof.
  split.
  - intros Hsite.
    rewrite <-length_zero_iff_nil, length_pie_slices_site by done.
    rewrite length_zero_iff_nil, unique_nil_iff, fmap_nil_iff.
    rewrite elem_of_launch_sites. split.
    + intros Hnil (r & Hr & Hat).
      assert (r ∈ filter (at_site site) df) as Hin
        by by apply list_elem_of_filter.
      rewrite Hnil in Hin. by apply elem_of_nil in Hin.
    + intros Hno. apply filter_none. intros r Hr Hat. apply Hno. by exists r.
  - rewrite pie_slices_ALL, <-length_zero_iff_nil, length_fmap.
    unfold groupby_size, group_sizes.
    rewrite length_fmap, merge_sort_Permutation.
    rewrite length_zero_iff_nil, unique_nil_iff, fmap_nil_iff. split.
    + intros Hnil r Hr Hs.
      assert (r ∈ filter succeeded df) as Hin by by apply list_elem_of_filter.
      rewrite Hnil in Hin. by apply elem_of_nil in Hin.
    + intros Hno. by apply filter_none.
Qed.

(** ** The scatter chart across ranges and sites *)

Lemma scatter_rows_kept (df : DataFrame) (site : string) (low high : number) :
  scatter_rows df site low high = filter (kept df site low high) df.
Proof. unfold scatter_rows. by rewrite get_scatter_chart_records. Qed.

Lemma site_rows_filter (df : DataFrame) (site : string) (low high : number) :
  site ≠ "ALL" →
  scatter_rows df site low high
  = filter (at_site site) (scatter_rows df "ALL" low high).
Proof.
  intros Hsite. rewrite !scatter_rows_kept.
  rewrite (list_filter_filter (at_site site) (kept df "ALL" low high)).
  apply list_filter_iff. unfold kept. naive_solver.
Qed.

(** The rows of a table, group by group, for keys that cover the table. *)
Lemma partition_by_key {A K : Type} `{EqDecision K} (f : A → K)
    (keys : list K) (l : list A) :
  NoDup keys → (∀ x, x ∈ l → f x ∈ keys) →
  l ≡ₚ mjoin ((λ k, filter (λ x, f x = k) l) <$> keys).
Proof.
  intros Hnd. revert l. induction Hnd as [|k keys Hk Hnd IH]; intros l Hl.
  { destruct l as [|x l]; [done|].
    destruct (not_elem_of_nil (f x)). apply Hl. left. }
  rewrite fmap_cons. cbn [mjoin list_join].
  rewrite <-(filter_app_complement (λ x, f x = k) l) at 1.
  apply Permutation_app; [done|].
  etrans; [apply IH|].
  { intros x [Hne Hx]%list_elem_of_filter.
    by pose proof (Hl x Hx) as [Heq|Hin]%elem_of_cons. }
  assert ((λ k', filter (λ x, f x = k') (filter (λ x, f x ≠ k) l)) <$> keys
          = (λ k', filter (λ x, f x = k') l) <$> keys) as ->; [|done].
  apply Forall_fmap_ext_1, Forall_forall. intros k' Hk'.
  rewrite (list_filter_filter (λ x, f x = k') (λ x, f x ≠ k)).
  apply list_filter_iff. intros x. split; [naive_solver|].
  intros Hx. split; [done|]. intros Hxk. apply Hk. by rewrite <-Hxk, Hx.
Qed.

(** X15: for the same site, the records plotted for a narrower payload
    range are a subsequence of those plotted for a wider one, when each
    bound of the wider range has the numeric type of the bound it replaces,
    or when no comparison rounds. *)
Theorem narrower_range_sublist (df : DataFrame) (site : string)
    (low1 high1 low2 high2 : number) :
  (value low2 ≤ value low1)%Qc → (value high1 ≤ value high2)%Qc →
  (same_type low1 low2 ∧ same_type high1 high2)
  ∨ (compared_exactly df low1 ∧ compared_exactly df high1
     ∧ compared_exactly df low2 ∧ compared_exactly df high2) →
  scatter_rows df site low1 high1 `sublist_of` scatter_rows df site low2 high2.
Proof.
  intros Hlow Hhigh Hcase. rewrite !scatter_rows_kept.
  apply sublist_filter_impl. intros r Hr. by apply kept_widen.
Qed.

Lemma narrower_range_sublist_witness :
  scatter_rows [heavy1; heavy2] "KSC" (Int 1) (Float (Qc_of_Z (2 ^ 53)))
    `sublist_of`
  scatter_rows [heavy1; heavy2] "KSC" (Int 0) (Float (Qc_of_Z (2 ^ 53 + 2))).
Proof.
  apply narrower_range_sublist; [by vm_compute..|]. by left.
Defined.

(** X16: the records plotted for a site are those of that site among the
    records plotted with no site selected, in the same order. *)
Theorem site_rows_of_all_rows (df : DataFrame) (site : string)
    (low high : number) :
  site ≠ "ALL" →
  scatter_rows df site low high
  = filter (at_site site) (scatter_rows df "ALL" low high)
  ∧ scatter_rows df site low high `sublist_of` scatter_rows df "ALL" low high.
Proof.
  intros Hsite. split; [by apply site_rows_filter|].
  rewrite (site_rows_filter df site) by done. apply sublist_filter.
Qed.

Lemma site_rows_of_all_rows_witness :
  scatter_rows scenario "CCAFS" (kg 0) (kg 600)
  = filter (at_site "CCAFS") (scatter_rows scenario "ALL" (kg 0) (kg 600))
  ∧ scatter_rows scenario "CCAFS" (kg 0) (kg 600)
      `sublist_of` scatter_rows scenario "ALL" (kg 0) (kg 600).
Proof. apply site_rows_of_all_rows. discriminate. Defined.

(** X17: when no site of the data set is itself called 'ALL', the records
    plotted with no site selected are, up to their order, the records
    plotted for each launch site in turn, put together. *)
Theorem all_rows_by_site (df : DataFrame) (low high : number) :
  "ALL" ∉ launch_sites df →
  scatter_rows df "ALL" low high
  ≡ₚ mjoin ((λ site, scatter_rows df site low high) <$> launch_sites df).
Proof.
  intros HALL.
  assert ((λ site, scatter_rows df site low high) <$> launch_sites df
          = (λ site, filter (λ r, Launch_Site r = site)
                            (scatter_rows df "ALL" low high))
              <$> launch_sites df) as ->.
  { apply Forall_fmap_ext_1, Forall_forall. intros site Hin.
    assert (site ≠ "ALL") as Hsite by (by intros ->).
    by rewrite (site_rows_filter df site). }
  apply partition_by_key.
  - apply NoDup_unique.
  - intros r. rewrite scatter_rows_kept.
    intros [_ Hr]%list_elem_of_filter.
    apply elem_of_launch_sites. by exists r.
Qed.

Lemma all_rows_by_site_witness :
  scatter_rows scenario "ALL" (kg 0) (kg 700)
  ≡ₚ mjoin ((λ site, scatter_rows scenario site (kg 0) (kg 700))
             <$> launch_sites scenario).
Proof.
  apply all_rows_by_site. apply (bool_decide_unpack _). by vm_compute.
Defined.

(** ** The two charts side by side *)

(** X18: under the range the slider starts with, the two charts count the
    same records: the scatter chart of a site plots as many points as the
    slices of the site's pie chart add up to, and the scatter chart of all
    sites plots as many success records as the slices of the pie chart of
    all sites add up to. *)
Theorem default_range_charts_agree (df : DataFrame) (site : string)
    (lo hi : number) :
  min_payload df = Some lo → max_payload df = Some hi →
  (site ≠ "ALL" →
   length (scatter_rows df site lo hi)
   = sum_list (pie_slices (get_pie_chart df site)).*2)
  ∧ length (filter succeeded (scatter_rows df "ALL" lo hi))
    = sum_list (pie_slices (get_pie_chart df "ALL")).*2.
Proof.
  intros Hlo Hhi.
  assert (scatter_rows df "ALL" lo hi = df) as HALL.
  { rewrite scatter_rows_kept. apply filter_all.
    intros r Hr. split; [|by left]. by apply passes_own_bounds. }
  split.
  - intros Hsite. rewrite (site_rows_filter df site), HALL by done.
    rewrite pie_slices_site, <-list_fmap_compose by done.
    rewrite (sum_value_counts (class <$> filter (at_site site) df)).
    by rewrite length_fmap.
  - rewrite HALL, pie_slices_ALL, <-list_fmap_compose.
    rewrite (sum_groupby_size (Launch_Site <$> filter succeeded df)).
    by rewrite length_fmap.
Qed.

Lemma default_range_charts_agree_witness :
  ("CCAFS" ≠ "ALL" →
   length (scatter_rows scenario "CCAFS" (kg 500) (kg 800))
   = sum_list (pie_slices (get_pie_chart scenario "CCAFS")).*2)
  ∧ length (filter succeeded (scatter_rows scenario "ALL" (kg 500) (kg 800)))
    = sum_list (pie_slices (get_pie_chart scenario "ALL")).*2.
Proof. apply default_range_charts_agree; by vm_compute. Defined.
